(** * Kraken bridge: HTMLAllCollection binding, Window teardown, debugger glue

    A shallow embedding of
      - [bridge/bindings/jsc/DOM/all_collection.cc]  (module [AllCollection]),
      - [bridge/bindings/KOM/window.h]               (module [KOM]),
      - [devtools/impl/jsc_debugger_impl.cc]         (module [Debugger]),
    followed by the properties of the bridge specification that these
    files decide. *)

From stdpp Require Import base decidable option list gmap strings.
From Stdlib Require Import ZArith NArith Lia.

(* ===================================================================== *)
(** ** C++ evaluation: defined results and undefined behaviour            *)
(* ===================================================================== *)

Module Cxx.

(** The outcome of evaluating a C++ expression: a value, or undefined
    behaviour (a violated library precondition, a null dereference). *)
Inductive cxx (A : Type) : Type :=
| Ok (a : A)
| UB.
Arguments Ok {A} a.
Arguments UB {A}.

(** Raw pointers are addresses; [nullptr] is address 0. *)
Definition ptr := N.
Definition nullptr : ptr := 0%N.

(** An integer read as a 64-bit [size_t]: negative values wrap. *)
Definition size_t_wrap (z : Z) : N := Z.to_N (z mod 2 ^ 64).

Section Vector.
Context {A : Type} `{EqDecision A}.

(** Iterators of a [std::vector] are positions in its buffer:
    [begin()] is 0 and [end()] is the size.  An iterator obtained
    before [erase] keeps denoting the same position afterwards (no
    reallocation happens on erase). *)
Definition iterator := nat.

Definition v_begin (v : list A) : iterator := 0.
Definition v_end (v : list A) : iterator := length v.

(** [std::find(v.begin(), v.end(), x)]: first position holding [x],
    or [v.end()]. *)
Fixpoint std_find (v : list A) (x : A) : iterator :=
  match v with
  | [] => 0
  | y :: v' => if decide (y = x) then 0 else S (std_find v' x)
  end.

(** [v.erase(pos)]: [pos] must be dereferenceable, so erasing at
    [end()] or beyond is undefined. *)
Definition erase (v : list A) (pos : iterator) : cxx (list A) :=
  if decide (pos < length v) then Ok (delete pos v) else UB.

(** [v.insert(pos, x)]: [pos] may be any position up to [end()]. *)
Definition insert (v : list A) (pos : iterator) (x : A) : cxx (list A) :=
  if decide (pos ≤ length v) then Ok (take pos v ++ x :: drop pos v) else UB.

(** [v.emplace_back(x)]. *)
Definition emplace_back (v : list A) (x : A) : list A := v ++ [x].

(** [v[i]] (unchecked [operator[]]), also used for a C array read. *)
Definition subscript (v : list A) (i : nat) : cxx A :=
  match v !! i with
  | Some x => Ok x
  | None => UB
  end.
End Vector.

End Cxx.
Import Cxx.

(* ===================================================================== *)
(** ** The JavaScriptCore C API, as far as the binding uses it            *)
(* ===================================================================== *)

Module JSC.

(** Engine-side object identity ([JSObjectRef] is an opaque handle). *)
Definition JSObjectRef := N.

(** What the API lets native code observe of a [JSValueRef]: its
    [JSType] and the payload of that type. *)
Inductive JSValue (double : Type) : Type :=
| JSUndefined
| JSNull
| JSBoolean (b : bool)
| JSNumber (d : double)
| JSString (s : string)
| JSSymbol (s : string)
| JSObject (o : JSObjectRef).
Arguments JSUndefined {double}.
Arguments JSNull {double}.
Arguments JSBoolean {double} b.
Arguments JSNumber {double} d.
Arguments JSString {double} s.
Arguments JSSymbol {double} s.
Arguments JSObject {double} o.

(** Modelled from the spec: the error object that [JSC_THROW_ERROR]
    (a macro declared outside src) stores in the [exception]
    out-parameter, "surfaced into the script engine's
    failure-propagation channel with a human-readable message". *)
Record JSError : Type := MkJSError { message : string }.

(** Everything outside the translation units modelled here: the
    engine's coercions, the private-data slot of engine objects, the
    compiler's conversions between [double] and [size_t], and the
    native heap in which [JSNode::NodeInstance] objects live. *)
Class Runtime : Type := {
  double : Type;
  (** [size_t index = <double>]: the implicit conversion. *)
  size_t_of_double : double → N;
  (** [JSValueMakeNumber(ctx, <size_t>)]: the implicit conversion. *)
  double_of_size_t : N → double;
  (** ToNumber on a value that is not a number; may raise. *)
  ToNumber : JSValue double → double * option JSError;
  (** ToObject on a value that is not an object; may raise. *)
  ToObject : JSValue double → option JSObjectRef * option JSError;
  (** The private-data slot of an object: [nullptr] when it has none. *)
  private_data : JSObjectRef → ptr;
  (** The [object] member of the [NodeInstance] at an address. *)
  instance_object : ptr → JSObjectRef
}.

Section Api.
Context {rt : Runtime}.

Definition JSValueRef : Type := JSValue double.

Definition JSValueIsObject (v : JSValueRef) : bool :=
  match v with
  | JSObject _ => true
  | _ => false
  end.

Definition JSValueMakeNumber (n : N) : JSValueRef :=
  JSNumber (double_of_size_t n).
End Api.

End JSC.
Import JSC.

(* ===================================================================== *)
(** ** bridge/bindings/jsc/DOM/all_collection.cc                          *)
(* ===================================================================== *)

Module AllCollection.

(** The names of the static property table. *)
Inductive AllCollectionProperty : Type :=
| kItem
| kAdd
| kRemove
| kLength.

(** The data members of the collection: the three bound function
    objects and the node sequence (non-owning [NodeInstance*]). *)
Record JSAllCollection : Type := MkCollection {
  m_item : JSObjectRef;
  m_add : JSObjectRef;
  m_remove : JSObjectRef;
  m_nodes : list ptr
}.

(** What a native callback can touch: the collection that the private
    data of [function] designates, and the slot behind
    [JSValueRef *exception] ([None] while nothing was raised).  The
    engine passes [arguments] as an array of [argumentCount] values, so
    the callbacks below take the list and compute the count from it. *)
Record Frame : Type := MkFrame {
  collection : JSAllCollection;
  exception : option JSError
}.

Definition with_nodes (nodes : list ptr) (fr : Frame) : Frame :=
  let c := collection fr in
  MkFrame (MkCollection (m_item c) (m_add c) (m_remove c) nodes) (exception fr).

Definition with_exception (e : option JSError) (fr : Frame) : Frame :=
  MkFrame (collection fr) e.

(** Native code: a frame transformer that may hit undefined behaviour. *)
Definition M (A : Type) : Type := Frame → cxx (A * Frame).

#[global] Instance M_ret : MRet M := λ A a fr, Ok (a, fr).
#[global] Instance M_bind : MBind M := λ A B k m fr,
  match m fr with
  | Ok (a, fr') => k a fr'
  | UB => UB
  end.

Definition lift {A} (c : cxx A) : M A := λ fr,
  match c with
  | Ok a => Ok (a, fr)
  | UB => UB
  end.

Definition get_nodes : M (list ptr) := λ fr, Ok (m_nodes (collection fr), fr).
Definition put_nodes (nodes : list ptr) : M unit := λ fr, Ok (tt, with_nodes nodes fr).
Definition this : M JSAllCollection := λ fr, Ok (collection fr, fr).

(** [*exception = <error made from msg>]. *)
Definition JSC_THROW_ERROR (msg : string) : M unit := λ fr,
  Ok (tt, with_exception (Some (MkJSError msg)) fr).

(** What the engine finds in the exception slot when a native call
    has returned. *)
Definition raised {A} (r : cxx (A * Frame)) : option JSError :=
  match r with
  | Ok (_, fr) => exception fr
  | UB => None
  end.

Section Binding.
Context {rt : Runtime}.

(** [JSValueToNumber(ctx, value, exception)]. *)
Definition JSValueToNumber (value : JSValueRef) : M double :=
  match value with
  | JSNumber d => mret d
  | _ => λ fr,
      match ToNumber value with
      | (d, Some e) => Ok (d, with_exception (Some e) fr)
      | (d, None) => Ok (d, fr)
      end
  end.

(** [JSValueToObject(ctx, value, exception)]; [None] is NULL. *)
Definition JSValueToObject (value : JSValueRef) : M (option JSObjectRef) :=
  match value with
  | JSObject o => mret (Some o)
  | _ => λ fr,
      match ToObject value with
      | (o, Some e) => Ok (o, with_exception (Some e) fr)
      | (o, None) => Ok (o, fr)
      end
  end.

(** [JSObjectGetPrivate(object)]; the API dereferences [object]. *)
Definition JSObjectGetPrivate (object : option JSObjectRef) : cxx ptr :=
  match object with
  | Some o => Ok (private_data o)
  | None => UB
  end.

(** [node->object]. *)
Definition NodeInstance_object (node : ptr) : cxx JSObjectRef :=
  if decide (node = nullptr) then UB else Ok (instance_object node).

Definition getAllCollectionPropertyNames : list string :=
  ["item"; "add"; "remove"; "length"]%string.

Definition getAllCollectionPropertyMap : gmap string AllCollectionProperty :=
  {[ "item"%string := kItem; "add"%string := kAdd;
     "remove"%string := kRemove; "length"%string := kLength ]}.

(** [std::unordered_map::count]. *)
Definition count (m : gmap string AllCollectionProperty) (name : string) : nat :=
  match m !! name with
  | Some _ => 1
  | None => 0
  end.

(** [std::unordered_map::operator[]] on the local copy of the map: a
    missing key yields the value-initialised enumerator (taken to be
    [kItem]; the call below is guarded by [count]). *)
Definition at_key (m : gmap string AllCollectionProperty) (name : string)
  : AllCollectionProperty :=
  default kItem (m !! name).

(** [JSAllCollection::getProperty]; [HostObject_getProperty] is the
    base-class implementation (declared outside src). *)
Definition getProperty
    (HostObject_getProperty : string → M (option JSValueRef))
    (name : string) : M (option JSValueRef) :=
  let propertyMap := getAllCollectionPropertyMap in
  if decide (0 < count propertyMap name) then
    let property := at_key propertyMap name in
    match property with
    | kItem => c ← this; mret (Some (JSObject (m_item c)))
    | kAdd => c ← this; mret (Some (JSObject (m_add c)))
    | kRemove => c ← this; mret (Some (JSObject (m_remove c)))
    | kLength => nodes ← get_nodes;
                 mret (Some (JSValueMakeNumber (N.of_nat (length nodes))))
    end
  else HostObject_getProperty name.

(** [JSAllCollection::internalAdd]. *)
Definition internalAdd (node before : ptr) : M unit :=
  if decide (before ≠ nullptr) then
    nodes ← get_nodes;
    let it := std_find nodes before in
    nodes ← lift (erase nodes it);
    nodes ← lift (insert nodes it node);
    put_nodes nodes
  else
    nodes ← get_nodes;
    put_nodes (emplace_back nodes node).

(** [JSAllCollection::item]. *)
Definition item (arguments : list JSValueRef) : M (option JSValueRef) :=
  let argumentCount := length arguments in
  if decide (argumentCount < 1) then mret None
  else
    arg0 ← lift (subscript arguments 0);
    d ← JSValueToNumber arg0;
    let index := size_t_of_double d in
    nodes ← get_nodes;
    if decide (N.of_nat (length nodes) ≤ index)%N then mret None
    else
      node ← lift (subscript nodes (N.to_nat index));
      object ← lift (NodeInstance_object node);
      mret (Some (JSObject object)).

(** [JSAllCollection::add]. *)
Definition add (arguments : list JSValueRef) : M (option JSValueRef) :=
  let argumentCount := length arguments in
  if decide (argumentCount < 1) then
    JSC_THROW_ERROR
      "Failed to execute add() on HTMLAllCollection: 1 arguments required.";;
    mret None
  else
    arg0 ← lift (subscript arguments 0);
    if negb (JSValueIsObject arg0) then
      JSC_THROW_ERROR
        "Failed to execute add() on HTMLAllCollection: first arguments should be a object.";;
      mret None
    else
      nodeRef ← JSValueToObject arg0;
      beforeRef ←
        (if decide (argumentCount = 2) then
           arg1 ← lift (subscript arguments 1);
           if JSValueIsObject arg1 then JSValueToObject arg1 else mret None
         else mret None);
      nodeInstance ← lift (JSObjectGetPrivate nodeRef);
      beforeInstance ←
        (match beforeRef with
         | Some _ => lift (JSObjectGetPrivate nodeRef)
         | None => mret nullptr
         end);
      internalAdd nodeInstance beforeInstance;;
      mret None.

(** [JSAllCollection::remove]. *)
Definition remove (arguments : list JSValueRef) : M (option JSValueRef) :=
  let argumentCount := length arguments in
  if decide (argumentCount < 1) then
    JSC_THROW_ERROR
      "Failed to execute remove() on HTMLAllCollection: 1 arguments required.";;
    mret None
  else
    arg0 ← lift (subscript arguments 0);
    d ← JSValueToNumber arg0;
    let index := size_t_of_double d in
    nodes ← get_nodes;
    nodes ← lift (erase nodes (v_begin nodes + N.to_nat index));
    put_nodes nodes;;
    mret None.
End Binding.

End AllCollection.
Import AllCollection.

(* ===================================================================== *)
(** ** bridge/bindings/KOM/window.h                                       *)
(* ===================================================================== *)

Module KOM.

(** Modelled from the spec: [jsa::Value] (jsa.h is outside src), the
    "stored callback value" of a bridged object.  A string or object
    value owns an engine pointer; [VNull] is the "empty/neutral value"
    that [Value(nullptr)] builds. *)
Inductive Value : Type :=
| VUndefined
| VNull
| VBoolean (b : bool)
| VNumber (n : Z)
| VString (p : ptr)
| VObject (p : ptr).

(** The data members of [JSWindow], in declaration order.  An empty
    [std::shared_ptr] is [None]. *)
Record JSWindow : Type := MkWindow {
  _onloadCallback : Value;
  _devicePixelRatio : Z;
  location_ : option ptr
}.

(** The storage of the window object itself. *)
Inductive Storage : Type :=
| Live (w : JSWindow)
| Reclaimed.

(** Native memory around one window: the engine pointers held by
    live [Value]s, and the use count in the control block of every
    live [JSLocation]. *)
Record Memory : Type := MkMemory {
  storage : Storage;
  held : gset ptr;
  use_count : gmap ptr nat
}.

(** The engine pointer a value holds, if any. *)
Definition holds (v : Value) (p : ptr) : Prop :=
  v = VString p ∨ v = VObject p.

(** Destroying or overwriting a [Value] gives up what it holds. *)
Definition Value_release (v : Value) (held : gset ptr) : gset ptr :=
  match v with
  | VString p | VObject p => held ∖ {[ p ]}
  | _ => held
  end.

(** Giving up one [shared_ptr] reference: the pointee is destroyed
    when the last owner lets go. *)
Definition shared_ptr_release (p : option ptr) (counts : gmap ptr nat)
  : gmap ptr nat :=
  match p with
  | None => counts
  | Some l =>
      match counts !! l with
      | Some (S (S n)) => <[ l := S n ]> counts
      | _ => delete l counts
      end
  end.

(** The body of [~JSWindow]:
    [_onloadCallback = nullptr; location_ = nullptr;] *)
Definition destructor_body (m : Memory) : Memory :=
  match storage m with
  | Reclaimed => m
  | Live w =>
      let held1 := Value_release (_onloadCallback w) (held m) in
      let w1 := MkWindow VNull (_devicePixelRatio w) (location_ w) in
      let counts2 := shared_ptr_release (location_ w1) (use_count m) in
      let w2 := MkWindow (_onloadCallback w1) (_devicePixelRatio w1) None in
      MkMemory (Live w2) held1 counts2
  end.

(** The implicit member destructors, in reverse declaration order. *)
Definition destroy_members (m : Memory) : Memory :=
  match storage m with
  | Reclaimed => m
  | Live w =>
      let counts1 := shared_ptr_release (location_ w) (use_count m) in
      let held2 := Value_release (_onloadCallback w) (held m) in
      MkMemory (Live w) held2 counts1
  end.

(** The storage goes back to the allocator. *)
Definition deallocate (m : Memory) : Memory :=
  MkMemory Reclaimed (held m) (use_count m).

(** The stages of destroying a window, in the order C++ runs them. *)
Inductive Stage : Type :=
| DestructorBody
| MemberDestructors
| Deallocation.

Definition stage (s : Stage) : Memory → Memory :=
  match s with
  | DestructorBody => destructor_body
  | MemberDestructors => destroy_members
  | Deallocation => deallocate
  end.

Definition destruction : list Stage :=
  [DestructorBody; MemberDestructors; Deallocation].

Definition run (stages : list Stage) (m : Memory) : Memory :=
  foldl (λ m s, stage s m) m stages.

(** The constructor: [location_ = std::make_shared<JSLocation>()],
    with the new [JSLocation] placed at address [l]. *)
Definition constructor (l : ptr) (m : Memory) : Memory :=
  MkMemory (Live (MkWindow VUndefined 1 (Some l))) (held m)
           (<[ l := 1 ]> (use_count m)).

End KOM.

(* ===================================================================== *)
(** ** devtools/impl/jsc_debugger_impl.cc                                 *)
(* ===================================================================== *)

Module Debugger.

Inductive ReasonForDetach : Type :=
| TerminatingDebuggingSession
| GlobalObjectIsDestructing.

Definition JSGlobalObject := ptr.

(** What the debugger glue does to the engine and to its own thread,
    in program order. *)
Inductive Event : Type :=
| KRAKEN_LOG (msg : string)
| attach (globalObject : JSGlobalObject)
| detach (globalObject : JSGlobalObject) (reason : ReasonForDetach)
| JSLockHolder_lock
| JSLockHolder_unlock
| Debugger_recompileAllJSFunctions
| DropAllLocks
| RestoreLocks
| sleep_for (milliseconds : Z).

#[global] Instance ReasonForDetach_eq_dec : EqDecision ReasonForDetach.
Proof. solve_decision. Defined.
#[global] Instance Event_eq_dec : EqDecision Event.
Proof. solve_decision. Defined.

Record JSCDebuggerImpl : Type := MkDebugger {
  m_globalObject : JSGlobalObject
}.

(** How a call ends within the observed stretch of execution. *)
Inductive Outcome : Type :=
| Returned
| StillInside.

Section Impl.
Variable self : JSCDebuggerImpl.

(** [JSCDebuggerImpl::recompileAllJSFunctions]. *)
Definition recompileAllJSFunctions : list Event :=
  [ KRAKEN_LOG "recompileAllJSFunctions called";
    JSLockHolder_lock;
    Debugger_recompileAllJSFunctions;
    JSLockHolder_unlock ].

(** [JSCDebuggerImpl::attachDebugger]. *)
Definition attachDebugger : list Event :=
  [ attach (m_globalObject self) ].

(** [JSCDebuggerImpl::detachDebugger]. *)
Definition detachDebugger (isBeingDestroyed : bool) : list Event :=
  [ KRAKEN_LOG "[debugger] JS debugger detached!" ] ++
  [ detach (m_globalObject self)
           (if isBeingDestroyed then GlobalObjectIsDestructing
            else TerminatingDebuggingSession) ] ++
  (if negb isBeingDestroyed then recompileAllJSFunctions else []).

(** The [while] loop of [runEventLoopWhilePaused].
    [m_doneProcessingDebuggerEvents] is written by the thread that
    drives the debugger: [flag k] is what the [k]-th evaluation of
    the loop condition reads.  [fuel] bounds the number of
    evaluations that are observed. *)
Fixpoint poll (flag : nat → bool) (k fuel : nat) : list Event * Outcome :=
  match fuel with
  | 0 => ([], StillInside)
  | S fuel' =>
      if flag k then ([], Returned)
      else
        let '(events, outcome) := poll flag (S k) fuel' in
        (sleep_for 50 :: events, outcome)
  end.

(** [JSCDebuggerImpl::runEventLoopWhilePaused]: the [DropAllLocks]
    guard is constructed first and takes the locks back when the
    function returns. *)
Definition runEventLoopWhilePaused (flag : nat → bool) (fuel : nat)
  : list Event * Outcome :=
  let '(events, outcome) := poll flag 0 fuel in
  match outcome with
  | Returned => (DropAllLocks :: events ++ [RestoreLocks], Returned)
  | StillInside => (DropAllLocks :: events, StillInside)
  end.
End Impl.

End Debugger.

(* ===================================================================== *)
(** ** A concrete runtime, for closed examples                            *)
(* ===================================================================== *)

Module Sample.

(** Numbers are integers and convert to [size_t] by wrapping; the
    object with handle [o] is the script side of the [NodeInstance]
    at address [1000 + o]; the handles from 100 on have no private
    data.  The examples on this runtime pass objects and small
    integers only: its coercion of other values is a placeholder, and
    the conversions of a build are those of [x86_64] below. *)
Definition runtime : Runtime := {|
  double := Z;
  size_t_of_double := size_t_wrap;
  double_of_size_t := Z.of_N;
  ToNumber := λ v,
    match v with
    | JSSymbol _ => (0%Z, Some (MkJSError "Cannot convert a symbol to a number"))
    | _ => (0%Z, None)
    end;
  ToObject := λ v, (None, Some (MkJSError "Cannot convert to object"));
  private_data := λ o, if decide (o < 100)%N then (1000 + o)%N else nullptr;
  instance_object := λ p, (p - 1000)%N
|}.

(** Four nodes and the address of a node's native instance. *)
Definition A : JSObjectRef := 1%N.
Definition B : JSObjectRef := 2%N.
Definition C : JSObjectRef := 3%N.
Definition D : JSObjectRef := 4%N.
Definition E : JSObjectRef := 5%N.
Definition inst (o : JSObjectRef) : ptr := private_data (Runtime := runtime) o.

(** A collection holding [A, B, C], nothing raised so far. *)
Definition abc : Frame :=
  MkFrame (MkCollection 10%N 11%N 12%N [inst A; inst B; inst C]) None.

Definition arg (o : JSObjectRef) : JSValueRef (rt := runtime) := JSObject o.
Definition num (z : Z) : JSValueRef (rt := runtime) := JSNumber (double := Z) z.

(** bridge/bindings/qjs/host_object_test.cc: the property hook of
    [SampleExoticHostObject] answers every name with the number 100. *)
Definition SampleExoticHostObject_getProperty (atom : string)
  : M (option (JSValueRef (rt := runtime))) :=
  mret (Some (num 100)).

(** A window that owns its location alone and stores a callback. *)
Definition window : KOM.Memory :=
  KOM.MkMemory (KOM.Live (KOM.MkWindow (KOM.VObject 7%N) 2 (Some 50%N)))
               {[ 7%N ]} {[ 50%N := 1 ]}.

(** The resume flag is raised between the second and third read. *)
Definition resumed_after_two (k : nat) : bool := bool_decide (2 ≤ k).

Definition debugger : Debugger.JSCDebuggerImpl := Debugger.MkDebugger 900%N.

(** *** The conversions of an x86-64 build

    A number is NaN ([None]) or has an integer value ([Some z]); the
    numbers with a fraction are left out. *)

(** The instruction [cvttsd2si]: the value as a signed 64-bit integer,
    given as its bit pattern, and the "integer indefinite" pattern
    [0x8000000000000000] for NaN and for a value that does not fit. *)
Definition cvttsd2si (d : option Z) : Z :=
  match d with
  | Some z => if decide (- 2 ^ 63 ≤ z < 2 ^ 63)%Z then z mod 2 ^ 64 else 2 ^ 63
  | None => 2 ^ 63
  end%Z.

(** [size_t index = <double>] as compiled: a value that compares at or
    above 2^63 is converted less 2^63 and gets the top bit back; every
    other value, NaN included, is converted as it is.  So a negative
    value down to -2^63 wraps, NaN gives 2^63, and a value from 2^64 on
    gives 0. *)
Definition x86_64_size_t_of_double (d : option Z) : N :=
  match d with
  | Some z =>
      if decide (2 ^ 63 ≤ z)%Z
      then Z.to_N (Z.lxor (cvttsd2si (Some (z - 2 ^ 63)%Z)) (2 ^ 63))
      else Z.to_N (cvttsd2si d)
  | None => Z.to_N (cvttsd2si d)
  end.

(** The runtime of such a build.  ToNumber is NaN for [undefined], 0
    for [null], 0 or 1 for a boolean; on a symbol it raises, and
    [JSValueToNumber] then hands back NaN.  Strings and objects are
    taken to be the non-numeric ones (NaN).  Objects and their native
    instances are those of [runtime]. *)
Definition x86_64 : Runtime := {|
  double := option Z;
  size_t_of_double := x86_64_size_t_of_double;
  double_of_size_t := λ n, Some (Z.of_N n);
  ToNumber := λ v,
    match v with
    | JSNumber d => (d, None)
    | JSNull => (Some 0%Z, None)
    | JSBoolean b => (Some (if b then 1%Z else 0%Z), None)
    | JSSymbol _ => (None, Some (MkJSError "Cannot convert a symbol to a number"))
    | _ => (None, None)
    end;
  ToObject := λ v, (None, Some (MkJSError "Cannot convert to object"));
  private_data := private_data (Runtime := runtime);
  instance_object := instance_object (Runtime := runtime)
|}.

(** A number and a symbol as arguments of a call on that build. *)
Definition number (z : Z) : JSValueRef (rt := x86_64) :=
  JSNumber (double := option Z) (Some z).
Definition symbol (description : string) : JSValueRef (rt := x86_64) :=
  JSSymbol (double := option Z) description.

End Sample.

(* ===================================================================== *)
(** ** Facts about the vector operations                                  *)
(* ===================================================================== *)

Section VectorFacts.
Context {A : Type} `{EqDecision A}.
Implicit Types (v : list A) (x y : A) (i : nat).

Lemma std_find_le v x : std_find v x ≤ length v.
Proof.
  induction v as [|y v IH]; simpl; [lia|].
  destruct (decide (y = x)); lia.
Qed.

Lemma std_find_elem v x : x ∈ v → v !! std_find v x = Some x.
Proof.
  induction v as [|y v IH]; simpl.
  - intros Hx. inversion Hx.
  - intros Hx. destruct (decide (y = x)) as [->|Hne]; [done|].
    simpl. apply IH.
    apply elem_of_cons in Hx as [Heq|Hin]; [congruence|done].
Qed.

Lemma std_find_not_elem v x : x ∉ v → std_find v x = length v.
Proof.
  induction v as [|y v IH]; simpl; [done|].
  intros Hx. apply not_elem_of_cons in Hx as [Hne Hnin].
  destruct (decide (y = x)) as [Heq|_]; [congruence|].
  by rewrite IH.
Qed.

Lemma erase_in_range v i y : v !! i = Some y → erase v i = Ok (delete i v).
Proof.
  intros Hi. unfold erase.
  apply lookup_lt_Some in Hi. by rewrite decide_True.
Qed.

Lemma erase_out_of_range v i : length v ≤ i → erase v i = UB.
Proof. intros Hi. unfold erase. rewrite decide_False; [done|lia]. Qed.

(** Inserting at the position that was just erased overwrites the
    element that stood there. *)
Lemma insert_after_erase v i x y :
  v !! i = Some y → insert (delete i v) i x = Ok (<[i := x]> v).
Proof.
  intros Hi. unfold insert.
  assert (Hlen : i < length v) by (by eapply lookup_lt_Some).
  rewrite decide_True; last first.
  { rewrite length_delete; [lia | by eauto]. }
  f_equal. clear Hlen. revert i Hi.
  induction v as [|z v IH]; intros [|i] Hi; simpl in *; try done.
  f_equal. by apply IH.
Qed.

End VectorFacts.

(* ===================================================================== *)
(** ** The node collection                                                *)
(* ===================================================================== *)

(** Running native code by hand: [native_step] exposes the outermost
    bind, [native_run] all of them together with the frame accessors. *)
Ltac native_step := unfold mbind at 1, M_bind at 1; simpl.
Ltac native_run :=
  unfold mbind, M_bind, lift, get_nodes, put_nodes, v_begin; simpl.

Section CollectionFacts.
Context {rt : Runtime}.
Implicit Types (fr : Frame) (node before : ptr) (n m : JSObjectRef).

Lemma with_nodes_same fr : with_nodes (m_nodes (collection fr)) fr = fr.
Proof. by destruct fr as [[] ?]. Qed.

(** Without a [before], [internalAdd] appends. *)
Lemma internalAdd_nullptr node fr :
  internalAdd node nullptr fr
  = Ok (tt, with_nodes (m_nodes (collection fr) ++ [node]) fr).
Proof. done. Qed.

(** With a [before] that is a member, [internalAdd] erases that member
    and puts [node] in its place. *)
Lemma internalAdd_member node before fr :
  before ≠ nullptr →
  before ∈ m_nodes (collection fr) →
  internalAdd node before fr
  = Ok (tt, with_nodes (<[std_find (m_nodes (collection fr)) before := node]>
                          (m_nodes (collection fr))) fr).
Proof.
  intros Hnn Hin. unfold internalAdd.
  rewrite decide_True by done. native_run.
  pose proof (std_find_elem _ _ Hin) as Hk.
  rewrite (erase_in_range _ _ _ Hk).
  by rewrite (insert_after_erase _ _ node _ Hk).
Qed.

(** With a [before] that is no member, [std::find] yields [end()] and
    erasing there is undefined. *)
Lemma internalAdd_absent node before fr :
  before ≠ nullptr →
  before ∉ m_nodes (collection fr) →
  internalAdd node before fr = UB.
Proof.
  intros Hnn Hnin. unfold internalAdd.
  rewrite decide_True by done. native_run.
  rewrite (std_find_not_elem _ _ Hnin).
  by rewrite erase_out_of_range.
Qed.

(** What [add] does with two object arguments: [before] is resolved
    from the private data of the first argument, so the second object
    only decides that the [before] branch is taken. *)
Lemma add_two_objects n m fr :
  add [JSObject n; JSObject m] fr =
    if decide (private_data n = nullptr) then
      Ok (None, with_nodes (m_nodes (collection fr) ++ [nullptr]) fr)
    else if decide (private_data n ∈ m_nodes (collection fr)) then
      Ok (None, fr)
    else UB.
Proof.
  unfold add. simpl. do 5 native_step. unfold mbind, M_bind.
  destruct (decide (private_data n = nullptr)) as [Hnull|Hnn].
  - by rewrite Hnull, internalAdd_nullptr.
  - destruct (decide (private_data n ∈ m_nodes (collection fr))) as [Hin|Hnin].
    + rewrite internalAdd_member by done.
      rewrite list_insert_id by (by apply std_find_elem).
      by rewrite with_nodes_same.
    + by rewrite internalAdd_absent.
Qed.
End CollectionFacts.

Section CollectionCalls.
Context {rt : Runtime}.
Implicit Types (fr : Frame) (n : JSObjectRef) (rest : list JSValueRef).

(** [remove] erases at [begin() + index] without comparing [index]
    with the size. *)
Lemma remove_out_of_range fr (d : double) rest :
  (N.of_nat (length (m_nodes (collection fr))) ≤ size_t_of_double d)%N →
  remove (JSNumber d :: rest) fr = UB.
Proof.
  intros Hge. unfold remove. simpl. native_run.
  rewrite erase_out_of_range; [done|lia].
Qed.

Lemma remove_in_range fr (d : double) rest :
  (size_t_of_double d < N.of_nat (length (m_nodes (collection fr))))%N →
  remove (JSNumber d :: rest) fr
  = Ok (None, with_nodes (delete (N.to_nat (size_t_of_double d))
                                 (m_nodes (collection fr))) fr).
Proof.
  intros Hlt. unfold remove. simpl. native_run.
  unfold erase. rewrite decide_True; [done|lia].
Qed.

(** [item] stores no error of its own: what is in the exception slot
    when it returns is what the number coercion left there. *)
Lemma item_raises_nothing_itself (v : JSValueRef) rest fr r fr' :
  item (v :: rest) fr = Ok (r, fr') →
  ∃ d, JSValueToNumber v fr = Ok (d, fr').
Proof.
  unfold item. simpl. native_run.
  destruct (JSValueToNumber v fr) as [[d fr1]|]; [|done].
  intros Hitem. exists d. f_equal. f_equal.
  destruct (decide _) as [Hout|Hin] in Hitem.
  { unfold mret, M_ret in Hitem. congruence. }
  unfold subscript in Hitem.
  destruct (_ !! _) as [node|] in Hitem; [|done].
  unfold NodeInstance_object in Hitem.
  destruct (decide (node = nullptr)) in Hitem; [done|].
  unfold mret, M_ret in Hitem. congruence.
Qed.

Lemma property_map_lookup (name : string) :
  getAllCollectionPropertyMap !! name =
    if decide (name = "item"%string) then Some kItem
    else if decide (name = "add"%string) then Some kAdd
    else if decide (name = "remove"%string) then Some kRemove
    else if decide (name = "length"%string) then Some kLength
    else None.
Proof.
  unfold getAllCollectionPropertyMap.
  repeat case_decide; simplify_map_eq; done.
Qed.
End CollectionCalls.

Section CollectionProperties.
Context {rt : Runtime}.
Implicit Types (fr : Frame) (n : JSObjectRef) (rest : list JSValueRef).

(** C2, as the code has it: called without an argument, [add] and
    [remove] each store an error whose message says that one argument
    is required, return [nullptr] and leave the node sequence alone;
    [item] returns [nullptr] and stores no error.  None of the three
    reads [arguments[0]] on that path (the result is defined). *)
Theorem too_few_arguments fr :
  add [] fr
  = Ok (None,
        with_exception
          (Some (MkJSError
             "Failed to execute add() on HTMLAllCollection: 1 arguments required."))
          fr)
  ∧ remove [] fr
    = Ok (None,
          with_exception
            (Some (MkJSError
               "Failed to execute remove() on HTMLAllCollection: 1 arguments required."))
            fr)
  ∧ item [] fr = Ok (None, fr).
Proof. repeat split. Qed.

(** X20: on the [size_t] that the conversion of its number argument
    yields, [item] is bounds-checked: when that index is below the
    length and the entry there is not null, it returns the script
    object of that entry; when it is at or beyond the length, which
    includes every negative integer that the conversion wraps, it
    returns [nullptr]; in each case the frame, and with it the
    exception slot, is left as it was. *)
Theorem item_bounds_checked fr (d : double) rest :
  let nodes := m_nodes (collection fr) in
  let index := size_t_of_double d in
  (∀ node, nodes !! N.to_nat index = Some node → node ≠ nullptr →
     item (JSNumber d :: rest) fr
     = Ok (Some (JSObject (instance_object node)), fr))
  ∧ ((N.of_nat (length nodes) ≤ index)%N →
     item (JSNumber d :: rest) fr = Ok (None, fr))
  ∧ (∀ i : Z, (- 2 ^ 63 ≤ i < 0)%Z → index = size_t_wrap i →
     (N.of_nat (length nodes) < 2 ^ 63)%N →
     item (JSNumber d :: rest) fr = Ok (None, fr)).
Proof.
  intros nodes index.
  assert (Hout : (N.of_nat (length nodes) ≤ index)%N →
                 item (JSNumber d :: rest) fr = Ok (None, fr)).
  { intros Hge. unfold item. simpl. native_run.
    fold nodes index. by rewrite decide_True. }
  split; [|split]; [|exact Hout|].
  - intros node Hnode Hnn.
    assert (Hlt : N.to_nat index < length nodes) by (by eapply lookup_lt_Some).
    unfold item. simpl. native_run.
    fold nodes index. rewrite decide_False by lia.
    unfold subscript. rewrite Hnode.
    unfold NodeInstance_object. by rewrite decide_False.
  - intros i Hi Hwrap Hsize. apply Hout.
    rewrite Hwrap. unfold size_t_wrap.
    replace (i mod 2 ^ 64)%Z with (i + 2 ^ 64)%Z; [lia|].
    apply Z.mod_unique with (q := (-1)%Z); lia.
Qed.

(** C6: a name of the static table is answered from the table, whatever
    the base-class [getProperty] would do (it is not consulted, not
    even when it would be undefined); any other name is answered by
    the base class alone. *)
Theorem static_table_consulted_first
    (fallback other : string → M (option JSValueRef)) (name : string) fr :
  (name ∈ getAllCollectionPropertyNames →
     getProperty fallback name fr = getProperty other name fr
     ∧ getProperty fallback name fr = getProperty (λ _ _, UB) name fr
     ∧ ∃ v, getProperty fallback name fr = Ok (Some v, fr))
  ∧ (name ∉ getAllCollectionPropertyNames →
     getProperty fallback name fr = fallback name fr).
Proof.
  unfold getProperty, count, at_key, getAllCollectionPropertyNames.
  rewrite property_map_lookup.
  split.
  - intros Hin.
    repeat (apply elem_of_cons in Hin as [->|Hin]);
      [| | | | by apply elem_of_nil in Hin];
      simpl; (repeat split; [eexists; reflexivity]).
  - intros Hnin.
    repeat (apply not_elem_of_cons in Hnin as [? Hnin]).
    destruct (decide (name = "item"%string)) as [?|_]; [done|].
    destruct (decide (name = "add"%string)) as [?|_]; [done|].
    destruct (decide (name = "remove"%string)) as [?|_]; [done|].
    destruct (decide (name = "length"%string)) as [?|_]; [done|].
    done.
Qed.

(** C10: when the first argument is an object and a second argument is
    present but is not an object, [add] appends the node of the first
    argument at the end of the sequence, returns [nullptr] and leaves
    the exception slot as it was. *)
Theorem add_ignores_non_object_before fr n (v : JSValueRef) rest :
  JSValueIsObject v = false →
  add (JSObject n :: v :: rest) fr
  = Ok (None, with_nodes (m_nodes (collection fr) ++ [private_data n]) fr).
Proof.
  intros Hv. unfold add. simpl. do 3 native_step.
  destruct (decide (S (S (length rest)) = 2)) as [Htwo|Hmore].
  - native_step. rewrite Hv. reflexivity.
  - reflexivity.
Qed.
End CollectionProperties.

(** *** The collection [A, B, C] *)

Section CollectionExamples.
Import Sample.
#[local] Existing Instance runtime.

(** C1, evaluated.  On [A, B, C], [add(D, before = B)] resolves
    [before] from the first argument, looks [D] up in the sequence,
    finds [end()] and erases there, which is undefined; it does not
    yield [A, D, B, C].  [add(C, before = A)], with [C] a member
    already, erases [C] and inserts it where it was: the sequence stays
    [A, B, C] instead of becoming [C, A, B, C].  [internalAdd] itself,
    handed the instance of [B], replaces [B] by [D]. *)
Theorem add_before_member_evaluated :
  add [arg D; arg B] abc = UB
  ∧ add [arg D; arg B] abc
    ≠ Ok (None, with_nodes [inst A; inst D; inst B; inst C] abc)
  ∧ add [arg C; arg A] abc = Ok (None, abc)
  ∧ add [arg C; arg A] abc
    ≠ Ok (None, with_nodes [inst C; inst A; inst B; inst C] abc)
  ∧ internalAdd (inst D) (inst B) abc
    = Ok (tt, with_nodes [inst A; inst D; inst C] abc).
Proof. repeat split; (reflexivity || discriminate). Qed.

(** C2 as stated fails for [item]: called without an argument it
    returns absence with nothing in the exception slot. *)
Lemma item_without_argument_is_silent :
  item [] abc = Ok (None, abc)
  ∧ ¬ is_Some (raised (item [] abc)).
Proof. split; [reflexivity|]. simpl. by intros [e He]. Qed.

(** C4, evaluated.  On [A, B, C], [remove(3)] and [remove(5)] erase at
    or past [end()]: the call is undefined, and there is no outcome in
    which an error is stored and the sequence kept. *)
Theorem remove_out_of_range_evaluated :
  remove [num 3] abc = UB
  ∧ remove [num 5] abc = UB
  ∧ ∀ e, remove [num 3] abc ≠ Ok (None, with_exception (Some e) abc).
Proof. repeat split; (reflexivity || discriminate). Qed.

(** C5, evaluated.  On [A, B, C], with [E] no member:
    [add(D, before = E)] is undefined, [add(C, before = E)] returns
    with the sequence unchanged and nothing in the exception slot, and
    [internalAdd] handed the instance of [E] is undefined. *)
Theorem add_unresolved_before_evaluated :
  add [arg D; arg E] abc = UB
  ∧ add [arg C; arg E] abc = Ok (None, abc)
  ∧ raised (add [arg C; arg E] abc) = None
  ∧ internalAdd (inst D) (inst E) abc = UB.
Proof. repeat split. Qed.

Lemma item_bounds_checked_witness :
  item [num 1] abc = Ok (Some (arg B), abc)
  ∧ item [num 3] abc = Ok (None, abc)
  ∧ item [num (-1)] abc = Ok (None, abc).
Proof.
  split; [|split].
  - apply (proj1 (item_bounds_checked (rt := runtime) abc 1%Z []) (inst B)).
    + reflexivity.
    + discriminate.
  - apply (proj1 (proj2 (item_bounds_checked (rt := runtime) abc 3%Z []))).
    vm_compute. discriminate.
  - apply (proj2 (proj2 (item_bounds_checked (rt := runtime) abc (-1)%Z []))
             (-1)%Z).
    + lia.
    + reflexivity.
    + reflexivity.
Defined.

Lemma static_table_consulted_first_witness :
  let hook := SampleExoticHostObject_getProperty in
  getProperty hook "item" abc = getProperty (λ _ _, UB) "item" abc
  ∧ getProperty hook "abc" abc = hook "abc" abc.
Proof.
  intros hook. split.
  - apply (proj1 (static_table_consulted_first (rt := runtime)
                    hook hook "item" abc)).
    apply list_elem_of_here.
  - apply (proj2 (static_table_consulted_first (rt := runtime)
                    hook hook "abc" abc)).
    apply (bool_decide_unpack _). exact I.
Defined.

Lemma add_ignores_non_object_before_witness :
  add [arg D; num 5] abc
  = Ok (None, with_nodes [inst A; inst B; inst C; inst D] abc).
Proof.
  apply (add_ignores_non_object_before (rt := runtime) abc D (num 5) []).
  reflexivity.
Defined.
End CollectionExamples.

(* ===================================================================== *)
(** ** Window teardown                                                    *)
(* ===================================================================== *)

Section WindowTeardown.
Import KOM.
Implicit Types (m : Memory) (w : JSWindow) (l p : ptr).

Lemma Value_release_holds v p (held : gset ptr) :
  holds v p → p ∉ Value_release v held.
Proof.
  intros [Hv | Hv]; subst v; simpl;
    (apply not_elem_of_difference; right; by apply elem_of_singleton).
Qed.

Lemma shared_ptr_release_last l (counts : gmap ptr nat) :
  counts !! l = Some 1 → shared_ptr_release (Some l) counts !! l = None.
Proof. intros Hl. simpl. rewrite Hl. apply lookup_delete_eq. Qed.

Lemma shared_ptr_release_shared l n (counts : gmap ptr nat) :
  counts !! l = Some (S (S n)) →
  shared_ptr_release (Some l) counts !! l = Some (S n).
Proof. intros Hl. simpl. rewrite Hl. apply lookup_insert_eq. Qed.

(** Once the body of the destructor has run, the member destructors
    find nothing left to give up. *)
Lemma destroy_members_after_body m :
  destroy_members (destructor_body m) = destructor_body m.
Proof.
  unfold destructor_body.
  destruct m as [[w|] held counts]; simpl; [|done].
  done.
Qed.

(** The only place of [Deallocation] in the destruction of a window is
    after the destructor body and the member destructors. *)
Lemma destruction_before_deallocation (pre post : list Stage) :
  destruction = pre ++ Deallocation :: post →
  pre = [DestructorBody; MemberDestructors] ∧ post = [].
Proof.
  unfold destruction. intros Heq.
  destruct pre as [|s1 [|s2 [|s3 pre]]]; simplify_eq/=; try done.
  by destruct pre.
Qed.

(** C7: when a window that stores a callback and alone owns its
    location is destroyed, then at every point of the destruction that
    precedes the release of its storage and follows the destructor
    body, and so when the storage is released, [_onloadCallback] is the
    null value and no longer holds its engine pointer, [location_] is
    empty and the location object is gone; the storage is reclaimed
    only as the last stage. *)
Theorem destructor_clears_before_reclaim m w l :
  storage m = Live w →
  location_ w = Some l →
  use_count m !! l = Some 1 →
  (∀ pre post, destruction = pre ++ Deallocation :: post →
     storage (run pre m) = Live (MkWindow VNull (_devicePixelRatio w) None)
     ∧ use_count (run pre m) !! l = None
     ∧ (∀ p, holds (_onloadCallback w) p → p ∉ held (run pre m))
     ∧ run (pre ++ [Deallocation]) m = run destruction m)
  ∧ storage (run [DestructorBody] m)
    = Live (MkWindow VNull (_devicePixelRatio w) None)
  ∧ storage (run destruction m) = Reclaimed.
Proof.
  intros Hlive Hloc Hcount.
  assert (Hbody : storage (destructor_body m)
                  = Live (MkWindow VNull (_devicePixelRatio w) None)).
  { unfold destructor_body. by rewrite Hlive. }
  split; [|split]; [|exact Hbody|done].
  intros pre post [-> ->]%destruction_before_deallocation.
  unfold run. simpl. rewrite destroy_members_after_body.
  split; [exact Hbody|]. split; [|split; [|done]].
  - unfold destructor_body. rewrite Hlive. simpl. rewrite Hloc.
    by apply shared_ptr_release_last.
  - intros p Hp. unfold destructor_body. rewrite Hlive. simpl.
    by apply Value_release_holds.
Qed.

Lemma destructor_clears_before_reclaim_witness :
  storage (run [DestructorBody] Sample.window)
  = Live (MkWindow VNull 2 None)
  ∧ storage (run destruction Sample.window) = Reclaimed.
Proof.
  apply (destructor_clears_before_reclaim Sample.window
           (MkWindow (VObject 7%N) 2 (Some 50%N)) 50%N).
  - reflexivity.
  - reflexivity.
  - reflexivity.
Defined.
End WindowTeardown.

(* ===================================================================== *)
(** ** The debugger glue                                                  *)
(* ===================================================================== *)

Section DebuggerProperties.
Import Debugger.
Implicit Types (flag : nat → bool) (k n fuel : nat).

(** The loop leaves at the first read that finds the flag set, having
    slept once for every read before it. *)
Lemma poll_returns flag n : ∀ k fuel,
  (∀ j, j < n → flag (k + j) = false) →
  flag (k + n) = true →
  n < fuel →
  poll flag k fuel = (replicate n (sleep_for 50), Returned).
Proof.
  induction n as [|n IH]; intros k fuel Hfalse Htrue Hfuel.
  - destruct fuel as [|fuel]; [lia|]. simpl.
    replace (k + 0) with k in Htrue by lia. by rewrite Htrue.
  - destruct fuel as [|fuel]; [lia|]. simpl.
    pose proof (Hfalse 0 ltac:(lia)) as Hk.
    replace (k + 0) with k in Hk by lia. rewrite Hk.
    rewrite (IH (S k) fuel); [done| |  |lia].
    + intros j Hj. replace (S k + j) with (k + S j) by lia.
      apply Hfalse. lia.
    + by replace (S k + n) with (k + S n) by lia.
Qed.

(** As long as every read finds the flag clear, the loop is still
    running, one sleep per read. *)
Lemma poll_still_inside flag fuel : ∀ k,
  (∀ j, j < fuel → flag (k + j) = false) →
  poll flag k fuel = (replicate fuel (sleep_for 50), StillInside).
Proof.
  induction fuel as [|fuel IH]; intros k Hfalse; simpl; [done|].
  pose proof (Hfalse 0 ltac:(lia)) as Hk.
  replace (k + 0) with k in Hk by lia. rewrite Hk.
  rewrite IH; [done|].
  intros j Hj. replace (S k + j) with (k + S j) by lia.
  apply Hfalse. lia.
Qed.

(** Up to any read, either the flag was set at a first read, or it
    was clear throughout. *)
Lemma first_set_upto flag n :
  (∃ n0, n0 < n ∧ flag n0 = true ∧ ∀ j, j < n0 → flag j = false)
  ∨ (∀ j, j < n → flag j = false).
Proof.
  induction n as [|n [(n0 & Hlt & Hset & Hmin)|Hclear]].
  - right. intros j Hj. lia.
  - left. exists n0. split; [lia|done].
  - destruct (flag n) eqn:Hn.
    + left. exists n. split; [lia|done].
    + right. intros j Hj.
      destruct (decide (j = n)) as [->|Hne]; [done|].
      apply Hclear. lia.
Qed.

(** A flag that is set at some read is set at a first read. *)
Lemma first_set flag n :
  flag n = true →
  ∃ n0, n0 ≤ n ∧ flag n0 = true ∧ ∀ j, j < n0 → flag j = false.
Proof.
  intros Hn.
  destruct (first_set_upto flag (S n)) as [(n0 & Hlt & Hset & Hmin)|Hclear].
  - exists n0. split; [lia|done].
  - rewrite Hclear in Hn by lia. done.
Qed.

(** C8: [runEventLoopWhilePaused] drops the locks before anything
    else; it returns at the first read of the resume flag that finds it
    set, having slept 50 ms once for each earlier read (not at all when
    the flag is set on entry), so it returns whenever the flag is set
    at some read; and as long as every read finds the flag clear it is
    still inside the loop, with one 50 ms sleep per read. *)
Theorem pause_loop_returns_when_resumed flag :
  (∀ fuel, ∃ events,
     (runEventLoopWhilePaused flag fuel).1 = DropAllLocks :: events)
  ∧ (∀ n fuel, flag n = true → (∀ j, j < n → flag j = false) → n < fuel →
       runEventLoopWhilePaused flag fuel
       = (DropAllLocks :: replicate n (sleep_for 50) ++ [RestoreLocks],
          Returned))
  ∧ (flag 0 = true → ∀ fuel, 0 < fuel →
       runEventLoopWhilePaused flag fuel
       = ([DropAllLocks; RestoreLocks], Returned))
  ∧ ((∃ n, flag n = true) →
       ∃ fuel events, runEventLoopWhilePaused flag fuel = (events, Returned))
  ∧ (∀ fuel, (∀ j, j < fuel → flag j = false) →
       runEventLoopWhilePaused flag fuel
       = (DropAllLocks :: replicate fuel (sleep_for 50), StillInside)).
Proof.
  assert (Hret : ∀ n fuel, flag n = true → (∀ j, j < n → flag j = false) →
            n < fuel →
            runEventLoopWhilePaused flag fuel
            = (DropAllLocks :: replicate n (sleep_for 50) ++ [RestoreLocks],
               Returned)).
  { intros n fuel Hset Hmin Hfuel. unfold runEventLoopWhilePaused.
    by rewrite (poll_returns flag n 0 fuel). }
  split; [|split; [exact Hret|split; [|split]]].
  - intros fuel. unfold runEventLoopWhilePaused.
    destruct (poll flag 0 fuel) as [events []]; simpl; eauto.
  - intros Hset fuel Hfuel. apply (Hret 0 fuel); [done| |done].
    intros j Hj. lia.
  - intros [n Hn].
    destruct (first_set flag n Hn) as (n0 & Hle & Hset & Hmin).
    exists (S n0). eexists. apply (Hret n0); [done|done|lia].
  - intros fuel Hclear. unfold runEventLoopWhilePaused.
    by rewrite (poll_still_inside flag fuel 0).
Qed.

Lemma pause_loop_returns_when_resumed_witness :
  runEventLoopWhilePaused Sample.resumed_after_two 5
  = ([DropAllLocks; sleep_for 50; sleep_for 50; RestoreLocks], Returned)
  ∧ runEventLoopWhilePaused (λ _, false) 3
    = ([DropAllLocks; sleep_for 50; sleep_for 50; sleep_for 50], StillInside).
Proof.
  split.
  - apply (proj1 (proj2 (pause_loop_returns_when_resumed
                           Sample.resumed_after_two)) 2 5).
    + reflexivity.
    + intros [|[|j]] Hj; [reflexivity|reflexivity|lia].
    + lia.
  - apply (proj2 (proj2 (proj2 (proj2
             (pause_loop_returns_when_resumed (λ _, false))))) 3).
    intros j Hj. reflexivity.
Defined.

(** C9: [detachDebugger(false)] detaches from the global object with
    reason [TerminatingDebuggingSession] and then, not before, has the
    engine recompile all functions (under the lock);
    [detachDebugger(true)] detaches with reason
    [GlobalObjectIsDestructing] and does not recompile. *)
Theorem detach_recompiles_unless_destroyed (self : JSCDebuggerImpl) :
  (∃ before after,
      detachDebugger self false
      = before
        ++ (detach (m_globalObject self) TerminatingDebuggingSession) :: after
      ∧ (Debugger_recompileAllJSFunctions ∉ before)
      ∧ after = recompileAllJSFunctions
      ∧ Debugger_recompileAllJSFunctions ∈ after)
  ∧ (Debugger_recompileAllJSFunctions ∉ detachDebugger self true)
  ∧ (detach (m_globalObject self) GlobalObjectIsDestructing)
    ∈ detachDebugger self true.
Proof.
  split; [|split].
  - exists [KRAKEN_LOG "[debugger] JS debugger detached!"],
           recompileAllJSFunctions.
    split; [done|]. split; [|split; [done|]].
    + intros Hin. apply list_elem_of_singleton in Hin. discriminate.
    + unfold recompileAllJSFunctions.
      do 2 apply list_elem_of_further. apply list_elem_of_here.
  - unfold detachDebugger. simpl. intros Hin.
    repeat (apply elem_of_cons in Hin as [Heq|Hin]; [discriminate|]).
    by apply elem_of_nil in Hin.
  - unfold detachDebugger. simpl.
    apply list_elem_of_further. apply list_elem_of_here.
Qed.
End DebuggerProperties.

(* ===================================================================== *)
(** ** Further behaviour of the node collection                           *)
(* ===================================================================== *)

Section FindFacts.
Context {A : Type} `{EqDecision A}.
Implicit Types (v : list A) (x : A) (k : nat).

(** No position before the one [std::find] returns holds the value. *)
Lemma std_find_minimal v x : ∀ j, j < std_find v x → v !! j ≠ Some x.
Proof.
  induction v as [|y v IH]; simpl; intros j Hj; [lia|].
  destruct (decide (y = x)) as [Heq|Hne]; [lia|].
  destruct j as [|j]; simpl; [congruence|].
  apply IH. lia.
Qed.

Lemma std_find_first v x k :
  v !! k = Some x → (∀ j, j < k → v !! j ≠ Some x) → std_find v x = k.
Proof.
  intros Hk Hmin.
  assert (Hin : x ∈ v) by (apply list_elem_of_lookup; eauto).
  pose proof (std_find_elem v x Hin) as Hfound.
  pose proof (std_find_minimal v x) as Hfirst.
  destruct (Nat.lt_trichotomy (std_find v x) k) as [Hlt|[Heq|Hgt]].
  - by destruct (Hmin _ Hlt).
  - done.
  - by destruct (Hfirst _ Hgt).
Qed.
End FindFacts.

Section CollectionBehaviour.
Context {rt : Runtime}.
Implicit Types (fr : Frame) (n m : JSObjectRef) (rest : list JSValueRef).
Implicit Types (node before : ptr).

(** The coercion of the index touches nothing but the exception slot. *)
Lemma JSValueToNumber_collection (v : JSValueRef) fr d fr' :
  JSValueToNumber v fr = Ok (d, fr') → collection fr' = collection fr.
Proof.
  unfold JSValueToNumber.
  destruct v; try (destruct (ToNumber _) as [d0 [e|]]);
    intros Heq; unfold mret, M_ret in Heq; by simplify_eq.
Qed.

(** [item] on a number, in full. *)
Lemma item_number fr (d : double) rest :
  item (JSNumber d :: rest) fr =
    if decide (N.of_nat (length (m_nodes (collection fr))) ≤ size_t_of_double d)%N
    then Ok (None, fr)
    else match m_nodes (collection fr) !! N.to_nat (size_t_of_double d) with
         | Some node =>
             if decide (node = nullptr) then UB
             else Ok (Some (JSObject (instance_object node)), fr)
         | None => UB
         end.
Proof.
  unfold item. simpl. native_run.
  destruct (decide _); [done|].
  unfold subscript. destruct (_ !! _) as [node|]; [|done].
  unfold NodeInstance_object. by destruct (decide (node = nullptr)).
Qed.

(** With any number of arguments other than two, [add] takes the
    branch without [before]. *)
Lemma add_without_before fr n rest :
  length rest ≠ 1 →
  add (JSObject n :: rest) fr
  = Ok (None, with_nodes (m_nodes (collection fr) ++ [private_data n]) fr).
Proof.
  intros Hlen. unfold add. simpl. do 3 native_step.
  rewrite decide_False by lia. reflexivity.
Qed.

(** X1: whenever the number of arguments is not exactly two, [add]
    with an object as first argument appends that object's node at the
    end, returns [nullptr] and raises nothing, whatever the further
    arguments are: with three or more arguments an object in second
    position is not used as [before]. *)
Theorem add_appends_unless_two_arguments fr n rest :
  length rest ≠ 1 →
  add (JSObject n :: rest) fr
  = Ok (None, with_nodes (m_nodes (collection fr) ++ [private_data n]) fr).
Proof. apply add_without_before. Qed.

(** X2: when the first argument is not an object, [add] stores the
    error "first arguments should be a object", returns [nullptr] and
    leaves the node sequence as it was, whatever follows the first
    argument. *)
Theorem add_rejects_non_object_node fr (v : JSValueRef) rest :
  JSValueIsObject v = false →
  add (v :: rest) fr
  = Ok (None,
        with_exception
          (Some (MkJSError
             "Failed to execute add() on HTMLAllCollection: first arguments should be a object."))
          fr).
Proof.
  intros Hv. unfold add. simpl. native_step. by rewrite Hv.
Qed.

(** X3: with two object arguments the outcome of [add] does not depend
    on which object the second one is; it is decided by the node of the
    first alone.  If that node is already a member nothing changes, if
    it is a node but no member the call is undefined, and if the first
    object carries no native instance a null pointer is appended. *)
Theorem add_never_consults_before n m m' fr :
  let nodes := m_nodes (collection fr) in
  add [JSObject n; JSObject m] fr = add [JSObject n; JSObject m'] fr
  ∧ (private_data n ≠ nullptr → private_data n ∈ nodes →
     add [JSObject n; JSObject m] fr = Ok (None, fr))
  ∧ (private_data n ≠ nullptr → private_data n ∉ nodes →
     add [JSObject n; JSObject m] fr = UB)
  ∧ (private_data n = nullptr →
     add [JSObject n; JSObject m] fr
     = Ok (None, with_nodes (nodes ++ [nullptr]) fr)).
Proof.
  intros nodes. rewrite !add_two_objects. fold nodes.
  split; [done|]. split; [|split].
  - intros Hnn Hin. by rewrite decide_False, decide_True.
  - intros Hnn Hnin. by rewrite !decide_False.
  - intros Hnull. by rewrite decide_True.
Qed.

(** X4: [internalAdd] with a [before] that is a member overwrites the
    first occurrence of [before] with [node]: the length stays the
    same, every other position keeps its element, and nothing is
    raised. *)
Theorem internalAdd_overwrites_first_occurrence node before fr k :
  let nodes := m_nodes (collection fr) in
  before ≠ nullptr →
  nodes !! k = Some before →
  (∀ j, j < k → nodes !! j ≠ Some before) →
  ∃ fr', internalAdd node before fr = Ok (tt, fr')
    ∧ length (m_nodes (collection fr')) = length nodes
    ∧ m_nodes (collection fr') !! k = Some node
    ∧ (∀ j, j ≠ k → m_nodes (collection fr') !! j = nodes !! j)
    ∧ exception fr' = exception fr.
Proof.
  intros nodes Hnn Hk Hmin.
  assert (Hin : before ∈ nodes) by (apply list_elem_of_lookup; eauto).
  eexists. split; [by apply internalAdd_member|].
  fold nodes. rewrite (std_find_first nodes before k Hk Hmin). simpl.
  split; [apply length_insert|]. split; [|split; [|done]].
  - apply list_lookup_insert_eq. by eapply lookup_lt_Some.
  - intros j Hj. by apply list_lookup_insert_ne.
Qed.

(** X5: [internalAdd] with a non-null [before] that is not in the
    sequence is undefined: the position [std::find] returns is [end()],
    and it is erased without being compared with [end()]. *)
Theorem internalAdd_unresolved_before_undefined node before fr :
  before ≠ nullptr →
  before ∉ m_nodes (collection fr) →
  std_find (m_nodes (collection fr)) before = v_end (m_nodes (collection fr))
  ∧ internalAdd node before fr = UB.
Proof.
  intros Hnn Hnin. split.
  - by apply std_find_not_elem.
  - by apply internalAdd_absent.
Qed.
(** X6: [remove] with an index below the length erases exactly the
    element at that index: the sequence gets one shorter, the elements
    before the index stay where they are, those after it move down by
    one, [nullptr] is returned and nothing is raised. *)
Theorem remove_erases_exactly_index fr (d : double) rest :
  let nodes := m_nodes (collection fr) in
  let k := N.to_nat (size_t_of_double d) in
  (size_t_of_double d < N.of_nat (length nodes))%N →
  ∃ fr', remove (JSNumber d :: rest) fr = Ok (None, fr')
    ∧ S (length (m_nodes (collection fr'))) = length nodes
    ∧ (∀ j, j < k → m_nodes (collection fr') !! j = nodes !! j)
    ∧ (∀ j, k ≤ j → m_nodes (collection fr') !! j = nodes !! S j)
    ∧ exception fr' = exception fr.
Proof.
  intros nodes k Hlt.
  eexists. split; [by apply remove_in_range|]. simpl. fold nodes k.
  assert (Hk : k < length nodes) by (unfold k; lia).
  split; [|split; [|split; [|done]]].
  - destruct (lookup_lt_is_Some_2 nodes k Hk) as [x Hx].
    rewrite length_delete; [lia|eauto].
  - intros j Hj. by apply list_lookup_delete_lt.
  - intros j Hj. by apply list_lookup_delete_ge.
Qed.

(** X7: [remove] with an index at or beyond the length is undefined,
    for every collection and every such index: the index is not
    compared with the size before the erase. *)
Theorem remove_beyond_end_undefined fr (d : double) rest :
  (N.of_nat (length (m_nodes (collection fr))) ≤ size_t_of_double d)%N →
  remove (JSNumber d :: rest) fr = UB.
Proof. apply remove_out_of_range. Qed.

(** X8: after [remove(k)] with [k] in range, [item(k)] answers with the
    node that stood at [k + 1] before, and with absence when [k] was
    the last index. *)
Theorem item_after_remove fr (d : double) rest rest' :
  let nodes := m_nodes (collection fr) in
  let k := N.to_nat (size_t_of_double d) in
  (size_t_of_double d < N.of_nat (length nodes))%N →
  ∃ fr', remove (JSNumber d :: rest) fr = Ok (None, fr')
    ∧ (∀ node, nodes !! S k = Some node → node ≠ nullptr →
         item (JSNumber d :: rest') fr'
         = Ok (Some (JSObject (instance_object node)), fr'))
    ∧ (S k = length nodes → item (JSNumber d :: rest') fr' = Ok (None, fr')).
Proof.
  intros nodes k Hlt.
  assert (Hk : k < length nodes) by (unfold k; lia).
  assert (Hlen : S (length (delete k nodes)) = length nodes).
  { destruct (lookup_lt_is_Some_2 nodes k Hk) as [x Hx].
    rewrite length_delete; [lia|eauto]. }
  eexists. split; [by apply remove_in_range|].
  fold nodes k. rewrite item_number. simpl. split.
  - intros node Hnode Hnn.
    assert (S k < length nodes) by (by eapply lookup_lt_Some).
    rewrite decide_False by (unfold k in *; lia).
    fold k. rewrite list_lookup_delete_ge by done. rewrite Hnode.
    by rewrite decide_False.
  - intros Hlast. rewrite decide_True; [done|]. unfold k in *. lia.
Qed.

(** X9: after [add(n)] with [n] the script object of a node, [item] at
    the old length, which is now the last index, answers with [n]. *)
Theorem item_after_add fr n (d : double) rest :
  private_data n ≠ nullptr →
  instance_object (private_data n) = n →
  size_t_of_double d = N.of_nat (length (m_nodes (collection fr))) →
  ∃ fr', add [JSObject n] fr = Ok (None, fr')
    ∧ length (m_nodes (collection fr')) = S (length (m_nodes (collection fr)))
    ∧ item (JSNumber d :: rest) fr' = Ok (Some (JSObject n), fr').
Proof.
  intros Hnn Hobj Hd.
  eexists. split; [by apply add_without_before|].
  simpl. split; [rewrite length_app; simpl; lia|].
  rewrite item_number. simpl. rewrite Hd.
  rewrite decide_False by (rewrite length_app; simpl; lia).
  rewrite Nat2N.id, list_lookup_middle by done.
  by rewrite decide_False, Hobj.
Qed.
(** X10: the [length] property is computed from the node sequence at
    the time of the read: right after [add(n)] it is one more than
    before, right after a [remove] in range one less, whatever the
    base-class [getProperty] is. *)
Theorem length_follows_add_and_remove
    (fallback : string → M (option JSValueRef)) fr n (d : double) rest :
  let size := length (m_nodes (collection fr)) in
  (∃ fr', add [JSObject n] fr = Ok (None, fr')
     ∧ getProperty fallback "length" fr'
       = Ok (Some (JSValueMakeNumber (N.of_nat (S size))), fr'))
  ∧ ((size_t_of_double d < N.of_nat size)%N →
     ∃ fr', remove (JSNumber d :: rest) fr = Ok (None, fr')
       ∧ getProperty fallback "length" fr'
         = Ok (Some (JSValueMakeNumber (N.of_nat (size - 1))), fr')).
Proof.
  intros size. split.
  - eexists. split; [by apply add_without_before|].
    unfold getProperty, count, at_key. rewrite property_map_lookup. simpl.
    native_run. rewrite length_app. simpl.
    by replace (length (m_nodes (collection fr)) + 1) with (S size) by (unfold size; lia).
  - intros Hlt. eexists. split; [by apply remove_in_range|].
    unfold getProperty, count, at_key. rewrite property_map_lookup. simpl.
    native_run.
    assert (Hk : N.to_nat (size_t_of_double d) < length (m_nodes (collection fr)))
      by (unfold size in Hlt; lia).
    destruct (lookup_lt_is_Some_2 _ _ Hk) as [x Hx].
    rewrite length_delete by eauto. done.
Qed.

(** X11: the list of property names the collection enumerates and the
    property map it answers from name the same four properties: a name
    is listed exactly when the map has an entry for it, and no name is
    listed twice. *)
Theorem property_names_match_map (name : string) :
  (name ∈ getAllCollectionPropertyNames
   ↔ is_Some (getAllCollectionPropertyMap !! name))
  ∧ NoDup getAllCollectionPropertyNames
  ∧ length getAllCollectionPropertyNames = size getAllCollectionPropertyMap.
Proof.
  split; [|split].
  - rewrite property_map_lookup. unfold getAllCollectionPropertyNames.
    rewrite !elem_of_cons, elem_of_nil.
    repeat case_decide; split; intros Hname; try (by eexists); try tauto.
    by destruct Hname.
  - apply (bool_decide_unpack _). exact I.
  - reflexivity.
Qed.

(** X12: [item] only reads.  Whatever the arguments, when it returns
    the collection is as it was, and the exception slot holds what the
    number coercion of the first argument left there: [item] stores no
    error of its own, and with no argument or a number as first
    argument the whole frame is unchanged. *)
Theorem item_only_reads (arguments : list JSValueRef) fr r fr' :
  item arguments fr = Ok (r, fr') →
  collection fr' = collection fr
  ∧ (arguments = [] → fr' = fr)
  ∧ (∀ v rest', arguments = v :: rest' → ∃ d, JSValueToNumber v fr = Ok (d, fr'))
  ∧ (∀ d rest', arguments = JSNumber d :: rest' → fr' = fr).
Proof.
  intros Hitem. destruct arguments as [|v rest'].
  - unfold item in Hitem. simpl in Hitem. unfold mret, M_ret in Hitem.
    simplify_eq. repeat split; intros; done.
  - destruct (item_raises_nothing_itself v rest' fr r fr' Hitem) as [d Hd].
    split; [by eapply JSValueToNumber_collection|]. split; [done|]. split.
    + intros v0 rest0 Heq. simplify_eq. by exists d.
    + intros d0 rest0 Heq. simplify_eq. simpl in Hd.
      unfold mret, M_ret in Hd. by simplify_eq.
Qed.

(** X13: [remove] does not look at the exception slot after coercing
    its argument: when the coercion of a non-number raises, it goes on
    to the erase with the index that the conversion of the coercion's
    result yields.  Where that index is at or beyond the length, as it
    is when the NaN of a failed coercion converts to 2^63, the call is
    undefined instead of ending with the error of the coercion; where
    it is below the length the element there is erased and the error
    stays in the slot. *)
Theorem remove_proceeds_after_failed_coercion fr (v : JSValueRef) rest d e :
  (∀ d', v ≠ JSNumber d') →
  ToNumber v = (d, Some e) →
  ((N.of_nat (length (m_nodes (collection fr))) ≤ size_t_of_double d)%N →
     remove (v :: rest) fr = UB)
  ∧ ((size_t_of_double d < N.of_nat (length (m_nodes (collection fr))))%N →
     remove (v :: rest) fr
     = Ok (None,
           with_nodes (delete (N.to_nat (size_t_of_double d))
                              (m_nodes (collection fr)))
                      (with_exception (Some e) fr))).
Proof.
  intros Hv Hto.
  assert (Hco : JSValueToNumber v fr = Ok (d, with_exception (Some e) fr)).
  { unfold JSValueToNumber. destruct v; try (by rewrite Hto).
    by destruct (Hv d0). }
  split.
  - intros Hge. unfold remove. simpl. do 2 native_step.
    rewrite Hco. native_run.
    rewrite erase_out_of_range; [done|lia].
  - intros Hlt. unfold remove. simpl. do 2 native_step.
    rewrite Hco. native_run.
    unfold erase. rewrite decide_True by lia. done.
Qed.

(** The bound function objects of a frame. *)
Lemma internalAdd_members node before fr u fr' :
  internalAdd node before fr = Ok (u, fr') →
  m_item (collection fr') = m_item (collection fr)
  ∧ m_add (collection fr') = m_add (collection fr)
  ∧ m_remove (collection fr') = m_remove (collection fr)
  ∧ exception fr' = exception fr.
Proof.
  unfold internalAdd. destruct (decide (before ≠ nullptr)); native_run.
  - destruct (erase _ _) as [nodes1|]; [|done].
    destruct (insert _ _ _) as [nodes2|]; [|done].
    intros Heq. by simplify_eq.
  - intros Heq. by simplify_eq.
Qed.

(** X14: [add] and [remove] never hand a value back to the script, and
    they never rebind the collection's functions: whenever one of them
    returns, the result is [nullptr] and [m_item], [m_add] and
    [m_remove] are what they were. *)
Theorem add_and_remove_return_nothing (arguments : list JSValueRef) fr r fr' :
  add arguments fr = Ok (r, fr') ∨ remove arguments fr = Ok (r, fr') →
  r = None
  ∧ m_item (collection fr') = m_item (collection fr)
  ∧ m_add (collection fr') = m_add (collection fr)
  ∧ m_remove (collection fr') = m_remove (collection fr).
Proof.
  intros [Hadd|Hremove].
  - revert Hadd. unfold add. destruct arguments as [|v rest'].
    { simpl. native_run. unfold JSC_THROW_ERROR, mret, M_ret.
      intros Heq. by simplify_eq. }
    simpl. native_step.
    destruct (JSValueIsObject v) eqn:Hv; simpl.
    2:{ unfold mbind, M_bind, JSC_THROW_ERROR, mret, M_ret.
        intros Heq. by simplify_eq. }
    destruct v; try done. simpl. do 2 native_step.
    assert (Hrest : ∀ (beforeInstance : ptr),
              (internalAdd (private_data o) beforeInstance
                 ≫= λ _ : (), mret None) fr = Ok (r, fr') →
              r = None
              ∧ m_item (collection fr') = m_item (collection fr)
              ∧ m_add (collection fr') = m_add (collection fr)
              ∧ m_remove (collection fr') = m_remove (collection fr)).
    { intros b. unfold mbind, M_bind.
      destruct (internalAdd _ _ _) as [[u fr1]|] eqn:Hint; [|done].
      unfold mret, M_ret. intros Heq. simplify_eq.
      destruct (internalAdd_members _ _ _ _ _ Hint) as (? & ? & ? & _).
      done. }
    destruct (decide (S (length rest') = 2)) as [Htwo|Hmore].
    + destruct rest' as [|v1 rest']; [done|]. simpl. native_step.
      destruct v1; simpl; do 3 native_step;
        first [exact (Hrest nullptr) | exact (Hrest (private_data o))].
    + simpl. do 3 native_step. exact (Hrest nullptr).
  - revert Hremove. unfold remove. destruct arguments as [|v rest'].
    { simpl. native_run. unfold JSC_THROW_ERROR, mret, M_ret.
      intros Heq. by simplify_eq. }
    simpl. native_step. unfold mbind at 1, M_bind at 1.
    destruct (JSValueToNumber v fr) as [[d fr1]|] eqn:Hco; [|done].
    pose proof (JSValueToNumber_collection _ _ _ _ Hco) as Hcoll.
    native_run. destruct (erase _ _) as [nodes1|]; [|done].
    unfold mret, M_ret. intros Heq. simplify_eq. simpl. by rewrite Hcoll.
Qed.
End CollectionBehaviour.

(** *** The collection [A, B, C], continued *)

Section CollectionBehaviourExamples.
Import Sample.
#[local] Existing Instance runtime.

Lemma add_appends_unless_two_arguments_witness :
  add [arg D; arg B; num 0] abc
  = Ok (None, with_nodes [inst A; inst B; inst C; inst D] abc).
Proof.
  apply (add_appends_unless_two_arguments (rt := runtime) abc D [arg B; num 0]).
  simpl. lia.
Defined.

Lemma add_rejects_non_object_node_witness :
  raised (add [num 5; arg B] abc)
  = Some (MkJSError
      "Failed to execute add() on HTMLAllCollection: first arguments should be a object.").
Proof.
  rewrite (add_rejects_non_object_node (rt := runtime) abc (num 5) [arg B]).
  - reflexivity.
  - reflexivity.
Defined.

Lemma add_never_consults_before_witness :
  add [arg C; arg A] abc = Ok (None, abc)
  ∧ add [arg D; arg B] abc = UB
  ∧ add [arg 200%N; arg B] abc
    = Ok (None, with_nodes [inst A; inst B; inst C; nullptr] abc).
Proof.
  split; [|split].
  - apply (proj1 (proj2 (add_never_consults_before (rt := runtime) C A A abc))).
    + discriminate.
    + apply (bool_decide_unpack _). exact I.
  - apply (proj1 (proj2 (proj2
             (add_never_consults_before (rt := runtime) D B B abc)))).
    + discriminate.
    + apply (bool_decide_unpack _). exact I.
  - apply (proj2 (proj2 (proj2
             (add_never_consults_before (rt := runtime) 200%N B B abc)))).
    reflexivity.
Defined.

Lemma internalAdd_overwrites_first_occurrence_witness :
  ∃ fr', internalAdd (inst D) (inst B) abc = Ok (tt, fr')
    ∧ length (m_nodes (collection fr')) = 3
    ∧ m_nodes (collection fr') !! 1 = Some (inst D)
    ∧ (∀ j, j ≠ 1 → m_nodes (collection fr') !! j
                    = [inst A; inst B; inst C] !! j)
    ∧ exception fr' = None.
Proof.
  apply (internalAdd_overwrites_first_occurrence (inst D) (inst B) abc 1).
  - discriminate.
  - reflexivity.
  - intros [|j] Hj; [discriminate|lia].
Defined.

Lemma internalAdd_unresolved_before_undefined_witness :
  internalAdd (inst D) (inst E) abc = UB.
Proof.
  apply (internalAdd_unresolved_before_undefined (inst D) (inst E) abc).
  - discriminate.
  - apply (bool_decide_unpack _). exact I.
Defined.

Lemma remove_erases_exactly_index_witness :
  ∃ fr', remove [num 1] abc = Ok (None, fr')
    ∧ S (length (m_nodes (collection fr'))) = 3
    ∧ (∀ j, j < 1 → m_nodes (collection fr') !! j
                    = [inst A; inst B; inst C] !! j)
    ∧ (∀ j, 1 ≤ j → m_nodes (collection fr') !! j
                    = [inst A; inst B; inst C] !! S j)
    ∧ exception fr' = None.
Proof.
  apply (remove_erases_exactly_index (rt := runtime) abc 1%Z []).
  reflexivity.
Defined.

Lemma remove_beyond_end_undefined_witness :
  remove [num 4] abc = UB.
Proof.
  apply (remove_beyond_end_undefined (rt := runtime) abc 4%Z []).
  vm_compute. discriminate.
Defined.

Lemma item_after_remove_witness :
  ∃ fr', remove [num 1] abc = Ok (None, fr')
    ∧ item [num 1] fr' = Ok (Some (arg C), fr').
Proof.
  destruct (item_after_remove (rt := runtime) abc 1%Z [] [])
    as (fr' & Hremove & Hnext & _).
  - reflexivity.
  - exists fr'. split; [exact Hremove|].
    apply (Hnext (inst C)).
    + reflexivity.
    + discriminate.
Defined.

Lemma item_after_add_witness :
  ∃ fr', add [arg D] abc = Ok (None, fr')
    ∧ length (m_nodes (collection fr')) = 4
    ∧ item [num 3] fr' = Ok (Some (arg D), fr').
Proof.
  apply (item_after_add (rt := runtime) abc D 3%Z []).
  - discriminate.
  - reflexivity.
  - reflexivity.
Defined.

Lemma length_follows_add_and_remove_witness :
  ∃ fr', remove [num 0] abc = Ok (None, fr')
    ∧ getProperty SampleExoticHostObject_getProperty "length" fr'
      = Ok (Some (num 2), fr').
Proof.
  apply (proj2 (length_follows_add_and_remove (rt := runtime)
                  SampleExoticHostObject_getProperty abc A 0%Z [])).
  reflexivity.
Defined.

Lemma item_only_reads_witness :
  collection abc = collection abc
  ∧ ([num 1] = [] → abc = abc)
  ∧ (∀ v rest', [num 1] = v :: rest' →
       ∃ d, JSValueToNumber v abc = Ok (d, abc))
  ∧ (∀ d rest', [num 1] = JSNumber d :: rest' → abc = abc).
Proof.
  apply (item_only_reads (rt := runtime) [num 1] abc (Some (arg B)) abc).
  reflexivity.
Defined.

Lemma remove_proceeds_after_failed_coercion_witness :
  remove (rt := x86_64) [symbol "s"] abc = UB.
Proof.
  destruct (remove_proceeds_after_failed_coercion (rt := x86_64)
              abc (symbol "s") [] None
              (MkJSError "Cannot convert a symbol to a number"))
    as [Hbeyond _].
  - discriminate.
  - reflexivity.
  - apply Hbeyond. vm_compute. discriminate.
Defined.

Lemma add_and_remove_return_nothing_witness :
  (None : option JSValueRef) = None
  ∧ m_item (collection (with_nodes [inst A; inst B; inst C; inst D] abc)) = 10%N
  ∧ m_add (collection (with_nodes [inst A; inst B; inst C; inst D] abc)) = 11%N
  ∧ m_remove (collection (with_nodes [inst A; inst B; inst C; inst D] abc))
    = 12%N.
Proof.
  apply (add_and_remove_return_nothing (rt := runtime) [arg D] abc None
           (with_nodes [inst A; inst B; inst C; inst D] abc)).
  left. reflexivity.
Defined.
End CollectionBehaviourExamples.

(* ===================================================================== *)
(** ** Window lifetime                                                    *)
(* ===================================================================== *)

Section WindowLifetime.
Import KOM.
Implicit Types (m : Memory) (w : JSWindow) (l p : ptr).

(** Running the whole destruction on a live window, in one step. *)
Lemma run_destruction_live m w :
  storage m = Live w →
  run destruction m
  = MkMemory Reclaimed
      (Value_release (_onloadCallback w) (held m))
      (shared_ptr_release (location_ w) (use_count m)).
Proof.
  intros Hlive. unfold run, destruction. simpl.
  rewrite destroy_members_after_body.
  unfold deallocate, destructor_body. by rewrite Hlive.
Qed.

(** X15: a window that is constructed and then destroyed leaves the
    memory around it as it found it: the location object that the
    constructor made is gone again, no engine pointer was taken or
    given up, and the window's storage is reclaimed. *)
Theorem construct_then_destroy_leaks_nothing m l :
  use_count m !! l = None →
  storage (run destruction (constructor l m)) = Reclaimed
  ∧ held (run destruction (constructor l m)) = held m
  ∧ use_count (run destruction (constructor l m)) = use_count m.
Proof.
  intros Hfresh.
  rewrite (run_destruction_live _ (MkWindow VUndefined 1 (Some l))) by done.
  simpl. split; [done|]. split; [done|].
  rewrite lookup_insert_eq. by apply delete_insert_id.
Qed.

(** X16: when other owners still hold the location, destroying the
    window gives up the window's reference and no more: the use count
    goes down by exactly one and the location object stays alive. *)
Theorem shared_location_outlives_window m w l n :
  storage m = Live w →
  location_ w = Some l →
  use_count m !! l = Some (S (S n)) →
  use_count (run destruction m) !! l = Some (S n)
  ∧ storage (run destruction m) = Reclaimed.
Proof.
  intros Hlive Hloc Hcount.
  rewrite (run_destruction_live m w Hlive). simpl. rewrite Hloc.
  split; [|done]. by apply shared_ptr_release_shared.
Qed.

(** X17: destroying a window touches nothing but what the window holds:
    the use count of every location other than its own, and every held
    engine pointer other than the one in its callback, is as before. *)
Theorem destruction_touches_only_its_own m w :
  storage m = Live w →
  (∀ l, location_ w ≠ Some l →
     use_count (run destruction m) !! l = use_count m !! l)
  ∧ (∀ p, ¬ holds (_onloadCallback w) p →
     p ∈ held (run destruction m) ↔ p ∈ held m).
Proof.
  intros Hlive. rewrite (run_destruction_live m w Hlive). simpl. split.
  - intros l Hl. destruct (location_ w) as [l0|]; simpl; [|done].
    assert (Hne : l0 ≠ l) by congruence.
    destruct (use_count m !! l0) as [[|[|n]]|];
      by rewrite ?lookup_delete_ne, ?lookup_insert_ne by done.
  - intros p Hp. unfold holds in Hp.
    destruct (_onloadCallback w) as [| | | |q|q]; simpl; try done.
    + rewrite elem_of_difference, elem_of_singleton.
      split; [by intros [? _]|]. intros Hin. split; [done|].
      intros ->. apply Hp. by left.
    + rewrite elem_of_difference, elem_of_singleton.
      split; [by intros [? _]|]. intros Hin. split; [done|].
      intros ->. apply Hp. by right.
Qed.

Lemma construct_then_destroy_leaks_nothing_witness :
  let m := MkMemory Reclaimed {[ 7%N ]} {[ 50%N := 2 ]} in
  storage (run destruction (constructor 60%N m)) = Reclaimed
  ∧ held (run destruction (constructor 60%N m)) = {[ 7%N ]}
  ∧ use_count (run destruction (constructor 60%N m)) = {[ 50%N := 2 ]}.
Proof.
  intros m. apply (construct_then_destroy_leaks_nothing m 60%N).
  reflexivity.
Defined.

Lemma shared_location_outlives_window_witness :
  let w := MkWindow (VObject 7%N) 2 (Some 50%N) in
  let m := MkMemory (Live w) {[ 7%N ]} {[ 50%N := 2 ]} in
  use_count (run destruction m) !! 50%N = Some 1
  ∧ storage (run destruction m) = Reclaimed.
Proof.
  intros w m. apply (shared_location_outlives_window m w 50%N 0).
  - reflexivity.
  - reflexivity.
  - reflexivity.
Defined.

Lemma destruction_touches_only_its_own_witness :
  let w := MkWindow (VObject 7%N) 2 (Some 50%N) in
  let m := MkMemory (Live w) {[ 7%N; 8%N ]} {[ 50%N := 1; 51%N := 3 ]} in
  use_count (run destruction m) !! 51%N = Some 3
  ∧ 8%N ∈ held (run destruction m).
Proof.
  intros w m.
  destruct (destruction_touches_only_its_own m w eq_refl) as [Hcount Hheld].
  split.
  - transitivity (use_count m !! 51%N); [|reflexivity].
    apply (Hcount 51%N). discriminate.
  - apply (Hheld 8%N).
    + intros [Heq|Heq]; discriminate.
    + apply (bool_decide_unpack _). exact I.
Defined.
End WindowLifetime.

(* ===================================================================== *)
(** ** The pause loop, whatever the flag does                             *)
(* ===================================================================== *)

Section PauseLoopShape.
Import Debugger.
Implicit Types (flag : nat → bool) (n fuel : nat).

(** X18: every run of [runEventLoopWhilePaused], whatever values the
    reads of the resume flag produce, consists of dropping the locks,
    then one 50 ms sleep for each read that found the flag clear, and,
    only if it returns, taking the locks back as the last act.  It
    returns only at a read that found the flag set, so it never sleeps
    after having seen the flag set and never returns without having
    seen it. *)
Theorem pause_loop_trace_shape flag fuel events outcome :
  runEventLoopWhilePaused flag fuel = (events, outcome) →
  ∃ n, n ≤ fuel
    ∧ (∀ j, j < n → flag j = false)
    ∧ match outcome with
      | Returned =>
          n < fuel ∧ flag n = true
          ∧ events = DropAllLocks :: replicate n (sleep_for 50) ++ [RestoreLocks]
      | StillInside =>
          n = fuel
          ∧ events = DropAllLocks :: replicate n (sleep_for 50)
      end.
Proof.
  intros Hrun. unfold runEventLoopWhilePaused in Hrun.
  destruct (first_set_upto flag fuel) as [(n & Hlt & Hset & Hclear)|Hclear].
  - rewrite (poll_returns flag n 0 fuel) in Hrun by done.
    simplify_eq. exists n. split; [lia|]. split; [done|]. done.
  - rewrite (poll_still_inside flag fuel 0) in Hrun by done.
    simplify_eq. exists fuel. split; [lia|]. split; [done|]. done.
Qed.

Lemma pause_loop_trace_shape_witness :
  ∃ n, n ≤ 5
    ∧ (∀ j, j < n → Sample.resumed_after_two j = false)
    ∧ n < 5 ∧ Sample.resumed_after_two n = true
    ∧ [DropAllLocks; sleep_for 50; sleep_for 50; RestoreLocks]
      = DropAllLocks :: replicate n (sleep_for 50) ++ [RestoreLocks].
Proof.
  apply (pause_loop_trace_shape Sample.resumed_after_two 5
           [DropAllLocks; sleep_for 50; sleep_for 50; RestoreLocks] Returned).
  reflexivity.
Defined.
End PauseLoopShape.

(* ===================================================================== *)
(** ** Adding and removing at the end                                     *)
(* ===================================================================== *)

Section AddThenRemove.
Context {rt : Runtime}.
Implicit Types (fr : Frame) (n : JSObjectRef) (rest : list JSValueRef).

(** X19: [add(n)] followed by [remove] at the old length, which is the
    index at which [n] was appended, gives back the frame from before
    the [add]: the same node sequence and the same exception slot. *)
Theorem remove_undoes_add fr n (d : double) rest :
  size_t_of_double d = N.of_nat (length (m_nodes (collection fr))) →
  ∃ fr', add [JSObject n] fr = Ok (None, fr')
    ∧ remove (JSNumber d :: rest) fr' = Ok (None, fr).
Proof.
  intros Hd. eexists. split; [by apply add_without_before|].
  rewrite remove_in_range; simpl.
  - rewrite Hd, Nat2N.id, delete_middle, app_nil_r.
    f_equal. f_equal. by destruct fr as [[] ?].
  - rewrite Hd, length_app. simpl. lia.
Qed.

End AddThenRemove.

Lemma remove_undoes_add_witness :
  ∃ fr', add (rt := Sample.runtime) [Sample.arg Sample.D] Sample.abc
         = Ok (None, fr')
    ∧ remove (rt := Sample.runtime) [Sample.num 3] fr' = Ok (None, Sample.abc).
Proof.
  apply (remove_undoes_add (rt := Sample.runtime) Sample.abc Sample.D 3%Z []).
  reflexivity.
Defined.

(* ===================================================================== *)
(** ** The index of [item], from the number to the comparison            *)
(* ===================================================================== *)

Section IndexConversion.
Import Sample.

(** C3, evaluated.  [item] converts the number it is given to a
    [size_t] and only then compares with the size, and the conversion
    is not defined for a number that does not fit.  On [A, B, C], on an
    x86-64 build, [item(2^64 + 4096)] converts its argument to index 0
    and returns [A], where an index beyond the length is to give
    absence.  And once [add] was handed an object without native
    instance, the sequence holds a null pointer at index 3, within the
    bounds, and [item(3)] dereferences it. *)
Theorem item_converts_before_bounds_check_evaluated :
  size_t_of_double (Runtime := x86_64) (Some 18446744073709555712%Z) = 0%N
  ∧ item (rt := x86_64) [number 18446744073709555712] abc
    = Ok (Some (JSObject A), abc)
  ∧ item (rt := x86_64) [number 18446744073709555712] abc ≠ Ok (None, abc)
  ∧ add (rt := runtime) [arg 200%N] abc
    = Ok (None, with_nodes [inst A; inst B; inst C; nullptr] abc)
  ∧ item (rt := runtime) [num 3]
      (with_nodes [inst A; inst B; inst C; nullptr] abc) = UB.
Proof. repeat split; (reflexivity || discriminate). Qed.
End IndexConversion.
